(** * The POST operation builder of flask_marshmallow_openapi

    A shallow embedding of [decorators/decorate_post.py]: the decorator factory
    [post] assembles one OpenAPI Operation document from a request schema, an
    optional response schema and a handful of options.  The document is the
    value handed to [FlaskPathsManager.decorate] under the key ["post"]; it is
    what [post] returns here.  The factory of the baseline is an argument of
    [post]; [_initial_docs] is the factory that section 4.1 of the
    specification describes. *)

From Stdlib Require Import ZArith String Ascii List Lia.
From stdpp Require Import base option list strings pretty gmap fin_maps fin_sets.

Local Open Scope string_scope.
Local Open Scope list_scope.

(** ** Python values *)

(** Truthiness, as tested by [if x], [if not x] and [x or y]. *)
Class Truthy (A : Type) := truthy : A → bool.

#[global] Instance string_truthy : Truthy string :=
  λ s, match s with EmptyString => false | String _ _ => true end.

#[global] Instance list_truthy {A} : Truthy (list A) :=
  λ l, match l with [] => false | _ :: _ => true end.

#[global] Instance option_truthy {A} `{Truthy A} : Truthy (option A) :=
  λ o, match o with None => false | Some a => truthy a end.

(** [x or d], and likewise [if not x: x = d]: an argument that may be [None]
    falls back on [d] when it is falsy. *)
Definition or_default {A} `{Truthy A} (x : option A) (d : A) : A :=
  match x with
  | Some a => if truthy a then a else d
  | None => d
  end.

(** Dict and list literals, as they are written into the document. *)
#[local] Set Warnings "-register-all".
Inductive json :=
| JNull
| JBool (b : bool)
| JInt (z : Z)
| JStr (s : string)
| JList (l : list json)
| JDict (kvs : list (string * json)).
#[local] Set Warnings "register-all".

Definition dict := list (string * json).

Fixpoint dict_get (k : string) (kvs : dict) : option json :=
  match kvs with
  | [] => None
  | (k', v) :: rest => if String.eqb k k' then Some v else dict_get k rest
  end.

(** [j[k]] for a dict [j]; [None] when the key is absent or [j] no dict. *)
Definition json_get (k : string) (j : json) : option json :=
  match j with
  | JDict kvs => dict_get k kvs
  | _ => None
  end.

(** ** Strings: [str.lower] and the [in] test

    Strings are byte strings; [lower] folds the ASCII letters, which is what
    [str.lower] does on the names of classes written in ASCII. *)

Definition lower_ascii (c : ascii) : ascii :=
  let n := nat_of_ascii c in
  if (65 <=? n)%nat && (n <=? 90)%nat then ascii_of_nat (n + 32) else c.

Fixpoint lower (s : string) : string :=
  match s with
  | EmptyString => EmptyString
  | String c rest => String (lower_ascii c) (lower rest)
  end.

(** [needle in hay] on strings. *)
Fixpoint contains (needle hay : string) : bool :=
  String.prefix needle hay
  || match hay with
     | EmptyString => false
     | String _ rest => contains needle rest
     end.

(** ** Exceptions *)

Inductive Exception := ValidationError | IndexError.

Definition result (A : Type) : Type := Exception + A.

Definition ret {A} (a : A) : result A := inr a.
Definition raise {A} (e : Exception) : result A := inl e.
Definition bind {A B} (m : result A) (k : A → result B) : result B :=
  match m with
  | inl e => inl e
  | inr a => k a
  end.

Notation "x <- m ;; k" := (bind m (λ x, k))
  (at level 100, m at next level, right associativity).

(** ** The data model *)

Module Locations.
Inductive t := query | header | path | cookie.
End Locations.

Module Securities.
(** Modelled from the spec: the enumeration is a closed set of named values
    with a distinguished no-token sentinel.  The builder names
    [access_token] and [no_token]; the remaining members are known only by
    their name. *)
Inductive t := access_token | no_token | scheme (n : string).

Definition name (s : t) : string :=
  match s with
  | access_token => "access_token"
  | no_token => "no_token"
  | scheme n => n
  end.

(** Enum members compare by identity. *)
Definition eqb (a b : t) : bool :=
  match a, b with
  | access_token, access_token => true
  | no_token, no_token => true
  | scheme n, scheme m => String.eqb n m
  | _, _ => false
  end.
End Securities.

(** A parameter object.  [ident] is the identity of an object the caller
    holds, so that the same object can be handed in more than once; an object
    built during the call, by the factory of the baseline or by the
    constructor, is held by no one else and has [None]. *)
Record ParameterObject := {
  ident : option nat;
  name : option string;
  in_ : option Locations.t;
  description : option string;
  required : option bool;
  allowEmptyValue : option bool
}.

Definition set_name (p : ParameterObject) (v : option string) :=
  {| ident := ident p; name := v; in_ := in_ p; description := description p;
     required := required p; allowEmptyValue := allowEmptyValue p |}.

Definition set_in_ (p : ParameterObject) (v : option Locations.t) :=
  {| ident := ident p; name := name p; in_ := v; description := description p;
     required := required p; allowEmptyValue := allowEmptyValue p |}.

(** [a is b], for two entries of which one at least is the caller's. *)
Definition same_object (a b : ParameterObject) : bool :=
  match ident a, ident b with
  | Some i, Some j => Nat.eqb i j
  | _, _ => false
  end.

(** An assignment [o.name = v] or [o.in_ = v] changes the object, and with
    it every entry of a list that is this object. *)
Definition setattr_name (o : ParameterObject) (v : option string)
    (l : list ParameterObject) : list ParameterObject :=
  (λ q, if same_object o q then set_name q v else q) <$> l.

Definition setattr_in_ (o : ParameterObject) (v : option Locations.t)
    (l : list ParameterObject) : list ParameterObject :=
  (λ q, if same_object o q then set_in_ q v else q) <$> l.

(** A parameter is given either as a raw mapping or as a structured object. *)
Inductive ParamInput :=
| Raw (data : dict)
| Structured (p : ParameterObject).

(** [{"scheme": []}] *)
Definition SecurityRequirementObject := list (string * list string).

Record SchemaOpts := {
  tags : option (list string);        (* [None]: the option is not declared *)
  url_id_field : option string
}.

Record Schema := {
  __name__ : string;
  opts : SchemaOpts
}.

Record OperationObject := {
  operationId : option string;
  summary : option string;
  op_tags : list string;
  parameters : list ParameterObject;
  requestBody : option json;
  responses : gmap string json;
  security : option (list SecurityRequirementObject)
}.

Definition set_operationId (d : OperationObject) v :=
  {| operationId := v; summary := summary d; op_tags := op_tags d;
     parameters := parameters d; requestBody := requestBody d;
     responses := responses d; security := security d |}.
Definition set_summary (d : OperationObject) v :=
  {| operationId := operationId d; summary := v; op_tags := op_tags d;
     parameters := parameters d; requestBody := requestBody d;
     responses := responses d; security := security d |}.
Definition set_tags (d : OperationObject) v :=
  {| operationId := operationId d; summary := summary d; op_tags := v;
     parameters := parameters d; requestBody := requestBody d;
     responses := responses d; security := security d |}.
Definition set_parameters (d : OperationObject) v :=
  {| operationId := operationId d; summary := summary d; op_tags := op_tags d;
     parameters := v; requestBody := requestBody d;
     responses := responses d; security := security d |}.
Definition set_requestBody (d : OperationObject) v :=
  {| operationId := operationId d; summary := summary d; op_tags := op_tags d;
     parameters := parameters d; requestBody := v;
     responses := responses d; security := security d |}.
Definition set_responses (d : OperationObject) v :=
  {| operationId := operationId d; summary := summary d; op_tags := op_tags d;
     parameters := parameters d; requestBody := requestBody d;
     responses := v; security := security d |}.
Definition set_security (d : OperationObject) v :=
  {| operationId := operationId d; summary := summary d; op_tags := op_tags d;
     parameters := parameters d; requestBody := requestBody d;
     responses := responses d; security := v |}.

(** [open_api_data.responses[code] = entry] *)
Definition setitem_responses (d : OperationObject) (code : string) (entry : json) :=
  set_responses d (<[code := entry]> (responses d)).

(** ** Shared helpers ([decorators/helpers.py]) *)

(** Modelled from the spec: [_initial_docs] is not part of the sources at
    hand.  Section 4.1: the baseline has one default path parameter, named
    from the schema's [url_id_field] option if present (otherwise a
    placeholder with no name), an empty [responses] map, [security] defaulted
    to the access-token requirement, and empty [tags]. *)
Definition _initial_docs (schema : Schema) (with_id_in_path : bool) : OperationObject :=
  {| operationId := None;
     summary := None;
     op_tags := [];
     parameters :=
       if with_id_in_path
       then [ {| ident := None;
                 name := url_id_field (opts schema);
                 in_ := Some Locations.path;
                 description := None;
                 required := None;
                 allowEmptyValue := None |} ]
       else [];
     requestBody := None;
     responses := ∅;
     security := Some [ [(Securities.name Securities.access_token, [])] ] |}.

(** Modelled from the spec: [_update_errors] is not part of the sources at
    hand.  Section 4.3: for each entry of the mapping, insert or overwrite
    [responses[str(status_code)] = {"description": description}].  The
    mapping is a dict keyed by integers, hence a finite map on [Z]; [pretty]
    is the decimal string of an integer, as [str] gives it. *)
Definition _update_errors (open_api_data : OperationObject)
    (errors : option (gmap Z string)) : OperationObject :=
  match errors with
  | None => open_api_data
  | Some errors =>
      map_fold
        (λ status_code description d,
           setitem_responses d (pretty status_code)
             (JDict [("description", JStr description)]))
        open_api_data errors
  end.

(** ** The builder *)

(** [{"content": {"application/json": {"schema": {"$ref": ref}}}}] *)
Definition json_content (ref : string) : json :=
  JDict [("content",
          JDict [("application/json",
                  JDict [("schema", JDict [("$ref", JStr ref)])])])].

Section post.

(** The truth value of a schema class: [True], unless its metaclass says
    otherwise. *)
Context {Schema_truthy : Truthy Schema}.

(** The factory of the baseline ([_initial_docs] of [decorators/helpers.py]),
    of which the builder uses [parameters], [summary] and [security]. *)
Variable initial_docs : Schema → bool → OperationObject.

(** The collaborators of the builder: the schema registry, the path manager
    and the constructor of the parameter model, called on the entries of a
    raw mapping as keyword arguments ([None] when validation fails). *)
Variable schema_name : Schema → string.
Variable schema_ref : Schema → string.
Variable generate_operation_id : string → bool → Schema → string.
Variable ParameterObject_of : dict → option ParameterObject.

(** [if isinstance(data, dict)]: build the structured parameter from the
    mapping; a structured parameter is taken as it is. *)
Definition to_ParameterObject (data : ParamInput) : result ParameterObject :=
  match data with
  | Raw kwargs =>
      match ParameterObject_of kwargs with
      | Some p => ret p
      | None => raise ValidationError
      end
  | Structured p => ret p
  end.

(** The loop over [additional_parameters]. *)
Fixpoint append_parameters (params : list ParameterObject)
    (additional_parameters : list ParamInput) : result (list ParameterObject) :=
  match additional_parameters with
  | [] => ret params
  | data :: rest =>
      data <- to_ParameterObject data ;;
      append_parameters (params ++ [data]) rest
  end.

(** The loop over [headers].  The assignment [header.in_ = Locations.header]
    is made on the parameter object itself, which may sit in [params]
    already: a structured parameter handed in both under
    [additional_parameters] and under [headers] is one object. *)
Fixpoint append_headers (params : list ParameterObject)
    (headers : list ParamInput) : result (list ParameterObject) :=
  match headers with
  | [] => ret params
  | header :: rest =>
      header <- to_ParameterObject header ;;
      let params := setattr_in_ header (Some Locations.header) params in
      let header := set_in_ header (Some Locations.header) in
      append_headers (params ++ [header]) rest
  end.

(** The decorator factory.  It returns the document it hands to the path
    manager, or raises.  [list(set(...))] lists the merged tags in an order
    of its own, for which [elements] stands. *)
Definition post
    (request_schema : Schema)
    (response_schema : option Schema)
    (operation_id : option string)
    (summary : option string)
    (errors : option (gmap Z string))
    (headers : option (list ParamInput))
    (security : Securities.t)
    (additional_parameters : option (list ParamInput))
  : result OperationObject :=
  let response_schema := or_default response_schema request_schema in
  let operation_id :=
    or_default operation_id
      (generate_operation_id "post" false response_schema) in
  let open_api_data := initial_docs request_schema true in
  let open_api_data := set_operationId open_api_data (Some operation_id) in
  let open_api_data :=
    if negb (Securities.eqb security Securities.no_token)
    then set_security open_api_data (Some [ [(Securities.name security, [])] ])
    else open_api_data in
  let open_api_data := set_responses open_api_data ∅ in
  let open_api_data :=
    if contains "deleted" (lower (schema_name response_schema))
    then setitem_responses open_api_data "204"
           (JDict [("description", JStr "Resource was deleted")])
    else setitem_responses open_api_data "201"
           (json_content (schema_ref response_schema)) in
  let open_api_data :=
    set_requestBody open_api_data
      (Some (json_content (schema_ref request_schema))) in
  let open_api_data :=
    if truthy summary then set_summary open_api_data summary
    else open_api_data in
  let url_id_field := url_id_field (opts request_schema) in
  open_api_data <-
    (if truthy url_id_field
        && negb (contains "create" (lower (schema_name request_schema)))
     then
       match parameters open_api_data with
       | [] => raise IndexError
       | p :: rest =>
           ret (set_parameters open_api_data
                  (set_name p url_id_field :: setattr_name p url_id_field rest))
       end
     else ret (set_parameters open_api_data [])) ;;
  params <-
    append_parameters (parameters open_api_data)
      (or_default additional_parameters []) ;;
  let open_api_data := set_parameters open_api_data params in
  let open_api_data :=
    set_parameters open_api_data
      (List.filter (λ p, truthy (name p)) (parameters open_api_data)) in
  let open_api_data :=
    set_tags open_api_data
      (elements
         (list_to_set (default [] (tags (opts request_schema))
                       ++ default [] (tags (opts response_schema)))
          : gset string)) in
  let open_api_data := _update_errors open_api_data errors in
  params <-
    append_headers (parameters open_api_data) (or_default headers []) ;;
  ret (set_parameters open_api_data params).

(** *** Vocabulary of the properties *)

(** The entries of a parameter list once normalised by the builder. *)
Definition coerced (inputs : list ParamInput) (ps : list ParameterObject) : Prop :=
  Forall2 (λ i p, to_ParameterObject i = inr p) inputs ps.

End post.

(** A header parameter as the builder appends it. *)
Definition header_of (q : ParameterObject) : ParameterObject :=
  set_in_ q (Some Locations.header).

(** An entry of [parameters] once the objects [qs] went through the loop
    over [headers]: it has become a header parameter when it is one of
    them. *)
Definition also_header (qs : list ParameterObject) (p : ParameterObject)
  : ParameterObject :=
  if existsb (λ q, same_object q p) qs then header_of p else p.

(** [p'] is the object [p] with [v] for its name. *)
Definition renamed_to (p : ParameterObject) (v : option string)
    (p' : ParameterObject) : Prop :=
  name p' = v
  ∧ ident p' = ident p
  ∧ in_ p' = in_ p
  ∧ description p' = description p
  ∧ required p' = required p
  ∧ allowEmptyValue p' = allowEmptyValue p.

(** [h] is the object [q] with "header" for its location. *)
Definition moved_to_header (q h : ParameterObject) : Prop :=
  in_ h = Some Locations.header
  ∧ ident h = ident q
  ∧ name h = name q
  ∧ description h = description q
  ∧ required h = required q
  ∧ allowEmptyValue h = allowEmptyValue q.

(** Lines 131-137: what the builder keeps of the parameters [baseline] of the
    baseline, for a request schema of registry name [resolved]. *)
Definition path_parameter_policy (baseline : list ParameterObject)
    (resolved : string) (request_schema : Schema)
  : result (list ParameterObject) :=
  if truthy (url_id_field (opts request_schema))
     && negb (contains "create" (lower resolved))
  then
    match baseline with
    | [] => raise IndexError
    | p :: rest =>
        ret (set_name p (url_id_field (opts request_schema))
             :: setattr_name p (url_id_field (opts request_schema)) rest)
    end
  else ret [].

(** [entry["content"]["application/json"]["schema"]["$ref"]] *)
Definition body_schema_ref (entry : json) : option string :=
  c ← json_get "content" entry;
  m ← json_get "application/json" c;
  s ← json_get "schema" m;
  r ← json_get "$ref" s;
  match r with JStr ref => Some ref | _ => None end.

(** [{"description": d}] *)
Definition description_entry (d : string) : json :=
  JDict [("description", JStr d)].

(** [errors.get(code)], for [errors] that may be [None]. *)
Definition errors_get (errors : option (gmap Z string)) (code : Z) : option string :=
  errors ≫= (λ e, e !! code).

Definition name_truthy (p : ParameterObject) : bool := truthy (name p).

(** The success entry as decided by the registry name alone: a
    description-only entry at "204" for a name with "deleted" in it, and
    otherwise an entry at "201" whose body schema is the reference [ref]. *)
Definition success_entry_by_name (resolved ref : string)
    (doc : OperationObject) : Prop :=
  if contains "deleted" (lower resolved)
  then ∃ d, responses doc !! "204" = Some (description_entry d)
  else ∃ entry, responses doc !! "201" = Some entry
                ∧ body_schema_ref entry = Some ref.

(** No parameter of the document has an empty or missing name. *)
Definition names_all_truthy (doc : OperationObject) : Prop :=
  Forall (λ p, name_truthy p = true) (parameters doc).

(** The success entry the builder writes for a response schema of registry
    name [resolved] and reference [ref]. *)
Definition success_responses (resolved ref : string) : gmap string json :=
  if contains "deleted" (lower resolved)
  then {[ "204" := description_entry "Resource was deleted" ]}
  else {[ "201" := json_content ref ]}.

(** A responses map after the caller's [errors] went over it. *)
Definition with_errors (errors : option (gmap Z string))
    (r : gmap string json) : gmap string json :=
  match errors with
  | None => r
  | Some errs => kmap pretty (description_entry <$> errs) ∪ r
  end.

(** What the builder keeps of the parameters of the baseline of section 4.1,
    for a request schema of registry name [resolved]. *)
Definition kept_path_parameters (resolved : string) (request_schema : Schema)
  : list ParameterObject :=
  if truthy (url_id_field (opts request_schema))
     && negb (contains "create" (lower resolved))
  then
    match parameters (_initial_docs request_schema true) with
    | [] => []
    | p :: rest => set_name p (url_id_field (opts request_schema)) :: rest
    end
  else [].

(** ** Concrete collaborators

    One registry, one operation-id scheme and one parameter constructor, to
    run the builder on concrete inputs. *)

Module Sample.

Definition schema_name (s : Schema) : string := __name__ s.

Definition schema_ref (s : Schema) : string :=
  "#/components/schemas/" +:+ __name__ s.

Definition generate_operation_id (verb : string) (is_collection : bool)
    (s : Schema) : string :=
  verb +:+ "_" +:+ __name__ s +:+ (if is_collection then "_list" else EmptyString).

Definition get_str (k : string) (kwargs : dict) : option (option string) :=
  match dict_get k kwargs with
  | None | Some JNull => Some None
  | Some (JStr s) => Some (Some s)
  | Some _ => None
  end.

Definition get_bool (k : string) (kwargs : dict) : option (option bool) :=
  match dict_get k kwargs with
  | None | Some JNull => Some None
  | Some (JBool b) => Some (Some b)
  | Some _ => None
  end.

Definition get_location (kwargs : dict) : option (option Locations.t) :=
  match dict_get "in" kwargs with
  | None | Some JNull => Some None
  | Some (JStr "query") => Some (Some Locations.query)
  | Some (JStr "header") => Some (Some Locations.header)
  | Some (JStr "path") => Some (Some Locations.path)
  | Some (JStr "cookie") => Some (Some Locations.cookie)
  | Some _ => None
  end.

(** Every field is optional; a value of the wrong type is refused. *)
Definition ParameterObject_of (kwargs : dict) : option ParameterObject :=
  n ← get_str "name" kwargs;
  i ← get_location kwargs;
  d ← get_str "description" kwargs;
  r ← get_bool "required" kwargs;
  a ← get_bool "allowEmptyValue" kwargs;
  Some {| ident := None; name := n; in_ := i; description := d; required := r;
          allowEmptyValue := a |}.

(** Marshmallow's schema classes are plain class objects: truthy. *)
Definition Schema_truthy : Truthy Schema := λ _, true.

Abbreviation post :=
  (@post Schema_truthy _initial_docs schema_name schema_ref
     generate_operation_id ParameterObject_of).

(** The schema of the builder's docstring. *)
Definition BookSchema : Schema :=
  {| __name__ := "BookSchema";
     opts := {| tags := Some ["Books"]; url_id_field := Some "id" |} |}.

Definition BookDeletedSchema : Schema :=
  {| __name__ := "BookDeletedSchema";
     opts := {| tags := Some ["Books"]; url_id_field := Some "id" |} |}.

Definition LibrarySchema : Schema :=
  {| __name__ := "LibrarySchema";
     opts := {| tags := Some ["Library"; "Books"; "Library"];
                url_id_field := None |} |}.

Definition unnamed : ParameterObject :=
  {| ident := Some 1; name := None; in_ := Some Locations.query;
     description := None; required := None; allowEmptyValue := None |}.

Definition empty_name : ParameterObject :=
  {| ident := Some 2; name := Some EmptyString; in_ := None;
     description := None; required := None; allowEmptyValue := None |}.

(** An object of the caller, for use under both lists. *)
Definition page : ParameterObject :=
  {| ident := Some 3; name := Some "page"; in_ := Some Locations.query;
     description := None; required := Some false; allowEmptyValue := None |}.

Definition zomg : ParamInput :=
  Raw [("name", JStr "zomg"); ("in", JStr "path"); ("required", JBool true);
       ("allowEmptyValue", JBool false)].

Definition x_foo : ParamInput :=
  Raw [("name", JStr "X-Foo"); ("in", JStr "path");
       ("allowEmptyValue", JBool false)].

Definition book_errors : gmap Z string :=
  {[ 409%Z := "title must be unique!";
     422%Z := "title must be at least 1 character!";
     201%Z := "Book stored";
     (-1)%Z := "never" ]}.

End Sample.


(** ** Further vocabulary *)

(** [word] occurs in [s] when letter case is disregarded: [s] has a factor
    whose lower-case form is [word]. *)
Definition occurs_nocase (word s : string) : Prop :=
  ∃ a w b, s = a +:+ w +:+ b ∧ lower w = word.

(** The raw mappings among [inputs] all pass the parameter constructor. *)
Definition all_validate (ParameterObject_of : dict → option ParameterObject)
    (inputs : list ParamInput) : Prop :=
  ∀ kwargs, Raw kwargs ∈ inputs → is_Some (ParameterObject_of kwargs).

(** The key of the success entry for a response schema of registry name
    [resolved]. *)
Definition success_code (resolved : string) : string :=
  if contains "deleted" (lower resolved) then "204" else "201".

Module Inputs.

Definition BookCreatedSchema : Schema :=
  {| __name__ := "BookCREATEDSchema";
     opts := {| tags := None; url_id_field := Some "id" |} |}.

Definition SoftDELETEDBookSchema : Schema :=
  {| __name__ := "SoftDELETEDBookSchema";
     opts := {| tags := Some ["Books"]; url_id_field := Some "book_id" |} |}.

(** A mapping the constructor refuses: [in] is no location. *)
Definition bad_location : ParamInput :=
  Raw [("name", JStr "X-Bar"); ("in", JStr "body")].

Definition placeholder : ParameterObject :=
  {| ident := None; name := None; in_ := Some Locations.path;
     description := None; required := Some true;
     allowEmptyValue := Some false |}.

(** A factory whose default path parameter is a placeholder without a name,
    which presets two responses and leaves [security] unset. *)
Definition initial_docs (schema : Schema) (with_id_in_path : bool)
  : OperationObject :=
  {| operationId := None;
     summary := None;
     op_tags := [];
     parameters := if with_id_in_path then [placeholder] else [];
     requestBody := None;
     responses :=
       {[ "200" := description_entry "OK";
          "404" := description_entry "Not found" ]};
     security := None |}.

Abbreviation post :=
  (@post Sample.Schema_truthy initial_docs Sample.schema_name
     Sample.schema_ref Sample.generate_operation_id
     Sample.ParameterObject_of).

End Inputs.

(** Evaluation of the builder at a concrete input. *)
Ltac run := vm_compute; reflexivity.

(** * Properties *)



Lemma or_default_falsy {A} `{Truthy A} (x : option A) (d : A) :
  truthy x = false → or_default x d = d.
Proof.
  destruct x as [a|]; simpl; [|done].
  unfold truthy at 1; simpl. by intros ->.
Qed.

(** The error merge touches [responses] only, and amounts to a left-biased
    union with the caller's entries. *)
Lemma update_errors_union (d : OperationObject) (errs : gmap Z string) :
  _update_errors d (Some errs)
  = set_responses d (kmap pretty (description_entry <$> errs) ∪ responses d).
Proof.
  unfold _update_errors.
  apply (map_fold_weak_ind
           (λ r m, r = set_responses d
                         (kmap pretty (description_entry <$> m) ∪ responses d))).
  - rewrite fmap_empty, kmap_empty, (left_id_L ∅ (∪)). by destruct d.
  - intros code desc m r Hfresh ->.
    unfold setitem_responses; simpl.
    rewrite fmap_insert, kmap_insert by apply _.
    by rewrite insert_union_l.
Qed.

Lemma update_errors_eq (d : OperationObject) errors :
  _update_errors d errors
  = set_responses d (with_errors errors (responses d)).
Proof.
  destruct errors as [errs|]; [apply update_errors_union | by destruct d].
Qed.

Lemma bind_inr {A B} (m : result A) (k : A → result B) (b : B) :
  bind m k = inr b ↔ ∃ a, m = inr a ∧ k a = inr b.
Proof.
  destruct m as [e|a]; simpl; split.
  - done.
  - by intros (a & [=] & _).
  - eauto.
  - by intros (a' & [= <-] & Hk).
Qed.

Lemma or_default_same {A} `{Truthy A} (d : A) : or_default (Some d) d = d.
Proof. simpl. by destruct (truthy d). Qed.

Lemma with_errors_lookup_code errors (r : gmap string json) code :
  with_errors errors r !! pretty code
  = match errors_get errors code with
    | Some d => Some (description_entry d)
    | None => r !! pretty code
    end.
Proof.
  destruct errors as [errs|]; simpl; [|done].
  rewrite lookup_union, lookup_kmap by apply _.
  rewrite lookup_fmap.
  destruct (errs !! code); simpl; [|by rewrite (left_id_L None _)].
  by destruct (r !! pretty code).
Qed.

Lemma body_schema_ref_json_content ref :
  body_schema_ref (json_content ref) = Some ref.
Proof. reflexivity. Qed.

Lemma list_filter_Forall {A} (f : A → bool) (l : list A) :
  Forall (λ x, f x = true) (List.filter f l).
Proof.
  apply List.Forall_forall. intros x Hx. by apply List.filter_In in Hx as [_ ?].
Qed.

Lemma update_errors_lookup_code d (errs : gmap Z string) code desc :
  errs !! code = Some desc →
  responses (_update_errors d (Some errs)) !! pretty code
  = Some (description_entry desc).
Proof.
  intros Hc. rewrite update_errors_union; simpl.
  apply lookup_union_Some_l.
  rewrite lookup_kmap by apply _.
  by rewrite lookup_fmap, Hc.
Qed.

Lemma update_errors_lookup_other d (errs : gmap Z string) k :
  (∀ code, is_Some (errs !! code) → pretty code ≠ k) →
  responses (_update_errors d (Some errs)) !! k = responses d !! k.
Proof.
  intros Hk. rewrite update_errors_union; simpl.
  apply lookup_union_r, lookup_kmap_None; [apply _|].
  intros code ->. rewrite lookup_fmap.
  destruct (errs !! code) eqn:E; [|done].
  exfalso. by apply (Hk code).
Qed.


(** Lines 131-137 by cases. *)
Lemma path_parameter_policy_inr baseline resolved rq kept :
  path_parameter_policy baseline resolved rq = inr kept →
  (∀ field,
     url_id_field (opts rq) = Some field →
     field ≠ EmptyString →
     contains "create" (lower resolved) = false →
     ∃ p rest,
       baseline = p :: rest
       ∧ kept = set_name p (Some field) :: setattr_name p (Some field) rest)
  ∧ (truthy (url_id_field (opts rq)) = false
     ∨ contains "create" (lower resolved) = true →
     kept = []).
Proof.
  unfold path_parameter_policy. intros Hkept. split.
  - intros field Hfield Hne Hcreate.
    rewrite Hfield, Hcreate in Hkept.
    assert (truthy (Some field) = true) as Htruthy by by destruct field.
    rewrite Htruthy in Hkept. simpl in Hkept.
    destruct baseline as [|p rest]; [done|].
    injection Hkept as <-. by exists p, rest.
  - intros Hcase.
    assert (truthy (url_id_field (opts rq))
            && negb (contains "create" (lower resolved)) = false) as Hcond.
    { destruct Hcase as [-> | ->]; [done | apply andb_false_r]. }
    rewrite Hcond in Hkept. by injection Hkept as <-.
Qed.

Section post_properties.

Context {Schema_truthy : Truthy Schema}.
Variable schema_name : Schema → string.
Variable schema_ref : Schema → string.
Variable generate_operation_id : string → bool → Schema → string.
Variable ParameterObject_of : dict → option ParameterObject.

Abbreviation post_on b :=
  (post b schema_name schema_ref generate_operation_id ParameterObject_of).
Abbreviation post := (post_on _initial_docs).
Abbreviation coerced := (coerced ParameterObject_of).
Abbreviation to_ParameterObject := (to_ParameterObject ParameterObject_of).

Lemma append_parameters_inr params inputs r :
  append_parameters ParameterObject_of params inputs = inr r
  ↔ ∃ ps, coerced inputs ps ∧ r = params ++ ps.
Proof.
  revert params. induction inputs as [|i inputs IH]; intros params; simpl.
  - split.
    + intros [= <-]. exists []. split; [constructor | by rewrite app_nil_r].
    + intros (ps & Hps & ->). inversion Hps. by rewrite app_nil_r.
  - destruct (to_ParameterObject i) as [e|p] eqn:Ei; simpl.
    + split; [done|]. intros (ps & Hps & _).
      inversion Hps; subst. congruence.
    + rewrite IH. split.
      * intros (ps & Hps & ->). exists (p :: ps).
        split; [by constructor | by rewrite <- app_assoc].
      * intros (ps & Hps & ->). inversion Hps as [|? q ? ps' Hq Hrest]; subst.
        assert (q = p) as -> by congruence.
        exists ps'. split; [done | by rewrite <- app_assoc].
Qed.

Lemma also_header_nil (l : list ParameterObject) : also_header [] <$> l = l.
Proof. induction l as [|p l IH]; [done|]. by rewrite fmap_cons, IH. Qed.

Lemma also_header_header_of qs q : also_header qs (header_of q) = header_of q.
Proof.
  unfold also_header.
  by destruct (existsb (λ q', same_object q' (header_of q)) qs).
Qed.

Lemma also_header_cons q qs p :
  also_header qs (if same_object q p then set_in_ p (Some Locations.header) else p)
  = also_header (q :: qs) p.
Proof.
  unfold also_header at 2; simpl.
  destruct (same_object q p); simpl; [apply also_header_header_of | done].
Qed.

Lemma also_header_name qs p : name (also_header qs p) = name p.
Proof. unfold also_header. by destruct (existsb _ qs). Qed.

Lemma also_header_in_ qs p :
  existsb (λ q, same_object q p) qs = true →
  in_ (also_header qs p) = Some Locations.header.
Proof. unfold also_header. by intros ->. Qed.

(** The loop over [headers] in closed form: the objects at hand become
    header parameters where they sit in [params], and are appended. *)
Lemma append_headers_inr params inputs r :
  append_headers ParameterObject_of params inputs = inr r
  ↔ ∃ qs, coerced inputs qs
          ∧ r = (also_header qs <$> params) ++ (header_of <$> qs).
Proof.
  revert params. induction inputs as [|i inputs IH]; intros params; simpl.
  - split.
    + intros [= <-]. exists []. split; [constructor|].
      by rewrite also_header_nil, app_nil_r.
    + intros (qs & Hqs & ->). inversion Hqs.
      by rewrite also_header_nil, app_nil_r.
  - destruct (to_ParameterObject i) as [e|q] eqn:Ei; simpl.
    + split; [done|]. intros (qs & Hqs & _).
      inversion Hqs; subst. congruence.
    + assert (∀ qs,
                (also_header qs
                 <$> (setattr_in_ q (Some Locations.header) params
                      ++ [set_in_ q (Some Locations.header)]))
                ++ (header_of <$> qs)
                = (also_header (q :: qs) <$> params)
                  ++ (header_of <$> q :: qs)) as Hstep.
      { intros qs. unfold setattr_in_.
        rewrite fmap_app, <- list_fmap_compose, <- app_assoc. simpl.
        fold (header_of q). rewrite also_header_header_of. f_equal.
        apply list_fmap_ext. intros k p _. simpl. apply also_header_cons. }
      rewrite IH. split.
      * intros (qs & Hqs & ->). exists (q :: qs).
        split; [by constructor | apply Hstep].
      * intros (qs & Hqs & ->). inversion Hqs as [|? q' ? qs' Hq Hrest]; subst.
        assert (q' = q) as -> by congruence.
        exists qs'. split; [done | by rewrite Hstep].
Qed.

(** The builder on a baseline [b]: it returns a document exactly when the
    path parameter policy does and every raw mapping validates, and the
    document is then the following one. *)
Lemma post_on_inr b rq rs oid sm errs hd sec ap doc :
  post_on b rq rs oid sm errs hd sec ap = inr doc
  ↔ ∃ kept ps qs,
      path_parameter_policy (parameters (b rq true)) (schema_name rq) rq
      = inr kept
      ∧ coerced (or_default ap []) ps
      ∧ coerced (or_default hd []) qs
      ∧ doc =
        {| operationId :=
             Some (or_default oid
                     (generate_operation_id "post" false (or_default rs rq)));
           summary := if truthy sm then sm else summary (b rq true);
           op_tags :=
             elements
               (list_to_set (default [] (tags (opts rq))
                             ++ default [] (tags (opts (or_default rs rq))))
                : gset string);
           parameters :=
             (also_header qs <$> List.filter name_truthy (kept ++ ps))
             ++ (header_of <$> qs);
           requestBody := Some (json_content (schema_ref rq));
           responses :=
             with_errors errs
               (success_responses (schema_name (or_default rs rq))
                  (schema_ref (or_default rs rq)));
           security :=
             if Securities.eqb sec Securities.no_token
             then security (b rq true)
             else Some [ [(Securities.name sec, [])] ] |}.
Proof.
  unfold post, path_parameter_policy, success_responses.
  destruct (truthy sm) eqn:Hsm,
           (contains "deleted" _) eqn:Hdel,
           (Securities.eqb sec _) eqn:Hsec,
           (truthy (url_id_field _) && _) eqn:Hpol; simpl.
  all: try destruct (parameters (b rq true)) as [|p0 rest]; simpl.
  all: rewrite ?bind_inr; repeat setoid_rewrite bind_inr.
  all: try setoid_rewrite update_errors_eq; simpl.
  all: try setoid_rewrite append_parameters_inr.
  all: try setoid_rewrite append_headers_inr.
  all: rewrite ?insert_empty.
  all: split;
    [ try (by intros [=]);
      intros (? & (ps & Hps & ->) & ? & (qs & Hqs & ->) & [= <-]);
      eexists _, ps, qs; by repeat split
    | intros (kept & ps & qs & Hkept & Hps & Hqs & ->);
      try discriminate Hkept; injection Hkept as <-; eauto 10 ].
Qed.

(** On the baseline of section 4.1. *)
Lemma post_inr rq rs oid sm errs hd sec ap doc :
  post rq rs oid sm errs hd sec ap = inr doc
  ↔ ∃ ps qs,
      coerced (or_default ap []) ps
      ∧ coerced (or_default hd []) qs
      ∧ doc =
        {| operationId :=
             Some (or_default oid
                     (generate_operation_id "post" false (or_default rs rq)));
           summary := if truthy sm then sm else None;
           op_tags :=
             elements
               (list_to_set (default [] (tags (opts rq))
                             ++ default [] (tags (opts (or_default rs rq))))
                : gset string);
           parameters :=
             (also_header qs
              <$> List.filter name_truthy
                    (kept_path_parameters (schema_name rq) rq ++ ps))
             ++ (header_of <$> qs);
           requestBody := Some (json_content (schema_ref rq));
           responses :=
             with_errors errs
               (success_responses (schema_name (or_default rs rq))
                  (schema_ref (or_default rs rq)));
           security :=
             if Securities.eqb sec Securities.no_token
             then security (_initial_docs rq true)
             else Some [ [(Securities.name sec, [])] ] |}.
Proof.
  rewrite post_on_inr.
  assert (path_parameter_policy (parameters (_initial_docs rq true))
            (schema_name rq) rq
          = inr (kept_path_parameters (schema_name rq) rq)) as Hkept.
  { unfold path_parameter_policy, kept_path_parameters; simpl.
    by destruct (truthy (url_id_field (opts rq)) && _). }
  rewrite Hkept. split.
  - intros (kept & ps & qs & [= <-] & Hps & Hqs & ->). by exists ps, qs.
  - intros (ps & qs & Hps & Hqs & ->). by eexists _, ps, qs.
Qed.

(** C1, amended: the success entry is decided by the response schema's
    registry name, and the caller's [errors] go over it.  When the name
    contains "deleted" in any case, [responses] has at "204" a
    description-only entry (the builder's, or the caller's when [errors]
    names 204).  Otherwise, when [errors] does not name 201, [responses] has
    at "201" the entry whose JSON body schema is the [$ref] of the response
    schema; when [errors] names 201, the entry at "201" is the caller's
    description-only entry. *)
Theorem post_success_response rq rs oid sm errs hd sec ap doc :
  post rq rs oid sm errs hd sec ap = inr doc →
  let response_schema := or_default rs rq in
  if contains "deleted" (lower (schema_name response_schema))
  then
    responses doc !! "204"
    = Some (description_entry
              (default "Resource was deleted" (errors_get errs 204)))
    ∧ (responses doc !! "204") ≫= body_schema_ref = None
  else
    match errors_get errs 201 with
    | None =>
        responses doc !! "201" = Some (json_content (schema_ref response_schema))
        ∧ (responses doc !! "201") ≫= body_schema_ref
          = Some (schema_ref response_schema)
    | Some d => responses doc !! "201" = Some (description_entry d)
    end.
Proof.
  intros (ps & hs & _ & _ & ->)%post_inr; simpl.
  unfold success_responses.
  destruct (contains "deleted" _) eqn:Hdel.
  - rewrite (with_errors_lookup_code errs _ 204).
    destruct (errors_get errs 204); simpl; [done|].
    by rewrite lookup_singleton_eq.
  - rewrite (with_errors_lookup_code errs _ 201).
    destruct (errors_get errs 201); simpl; [done|].
    by rewrite lookup_singleton_eq.
Qed.

(** C2, amended: the falsy-name filter runs before [headers] are appended.
    The finished [parameters] is the filtered list of the kept path parameter
    and the additional parameters, in which every name is non-empty,
    followed by one entry per header, which is not filtered and keeps the
    name the caller gave it.  An entry of the filtered list that is also
    handed in as a header has its location changed, never its name.  Without
    headers the filtered list is the whole of [parameters]. *)
Theorem post_parameters_named rq rs oid sm errs hd sec ap doc :
  post rq rs oid sm errs hd sec ap = inr doc →
  ∃ ps qs pre hs,
    coerced (or_default ap []) ps
    ∧ coerced (or_default hd []) qs
    ∧ parameters doc = pre ++ hs
    ∧ pre = also_header qs
            <$> List.filter name_truthy
                  (kept_path_parameters (schema_name rq) rq ++ ps)
    ∧ name <$> pre
      = name <$> List.filter name_truthy
                   (kept_path_parameters (schema_name rq) rq ++ ps)
    ∧ Forall (λ p, name_truthy p = true) pre
    ∧ Forall2 moved_to_header qs hs
    ∧ post rq rs oid sm errs None sec ap
      = inr (set_parameters doc
               (List.filter name_truthy
                  (kept_path_parameters (schema_name rq) rq ++ ps))).
Proof.
  intros (ps & qs & Hps & Hqs & ->)%post_inr; simpl.
  eexists ps, qs, _, (header_of <$> qs).
  split; [done|]. split; [done|]. split; [reflexivity|]. split; [reflexivity|].
  split; [|split; [|split]].
  - rewrite <- list_fmap_compose. apply list_fmap_ext.
    intros k p _. apply also_header_name.
  - apply Forall_fmap. eapply Forall_impl; [apply list_filter_Forall|].
    intros p Hp. unfold name_truthy, compose in *.
    by rewrite also_header_name.
  - apply Forall2_fmap_r, Forall_Forall2_diag, Forall_true.
    intros q. by repeat split.
  - apply post_inr. exists ps, []. split; [done|]. split; [constructor|].
    unfold set_parameters; simpl. by rewrite also_header_nil, app_nil_r.
Qed.


(** C4: every entry of [errors] ends up in [responses] under the decimal
    string of its code with the given description, whether the key is new
    or already there; the builder's own success entry gives way.  Every
    other key keeps the entry the builder wrote.  Any integer is accepted:
    the builder returns with [errors] whenever it returns without. *)
Theorem post_errors_merged rq rs oid sm (errs : gmap Z string) hd sec ap doc0 :
  post rq rs oid sm None hd sec ap = inr doc0 →
  ∃ doc,
    post rq rs oid sm (Some errs) hd sec ap = inr doc
    ∧ doc = _update_errors doc0 (Some errs)
    ∧ responses doc0
      = success_responses (schema_name (or_default rs rq))
          (schema_ref (or_default rs rq))
    ∧ (∀ code desc,
         errs !! code = Some desc →
         responses doc !! pretty code = Some (JDict [("description", JStr desc)]))
    ∧ (∀ k,
         (∀ code, is_Some (errs !! code) → pretty code ≠ k) →
         responses doc !! k = responses doc0 !! k).
Proof.
  intros Hdoc0.
  pose proof Hdoc0 as (ps & hs & Hps & Hhs & Edoc0)%post_inr.
  exists (_update_errors doc0 (Some errs)). split.
  { apply post_inr. exists ps, hs. split; [done|]. split; [done|].
    by rewrite update_errors_union, Edoc0. }
  split; [done|]. split; [by rewrite Edoc0|]. split.
  - intros code desc Hcode. by apply update_errors_lookup_code.
  - intros k Hk. by apply update_errors_lookup_other.
Qed.

(** C5: when the request schema declares a [url_id_field] and its registry
    name does not contain "create" in any case, the first parameter of the
    baseline is renamed to that field, whatever it was named before, and
    stays at the head of [parameters]; in every other case nothing of the
    baseline is left, and [parameters] holds the additional parameters only.
    In both cases the falsy-name filter and the headers follow.  The test on
    [url_id_field] is one of truthiness: an empty field goes with the other
    cases, which on a baseline of one parameter is the same as renaming it
    to the empty name, the filter dropping it. *)
Theorem post_path_parameter_policy b rq rs oid sm errs hd sec ap doc :
  post_on b rq rs oid sm errs hd sec ap = inr doc →
  ∃ ps qs,
    coerced (or_default ap []) ps
    ∧ coerced (or_default hd []) qs
    ∧ (∀ field,
         url_id_field (opts rq) = Some field →
         field ≠ EmptyString →
         contains "create" (lower (schema_name rq)) = false →
         ∃ p rest p',
           parameters (b rq true) = p :: rest
           ∧ renamed_to p (Some field) p'
           ∧ parameters doc
             = (also_header qs
                <$> p' :: List.filter name_truthy
                            (setattr_name p (Some field) rest ++ ps))
               ++ (header_of <$> qs))
    ∧ (truthy (url_id_field (opts rq)) = false
       ∨ contains "create" (lower (schema_name rq)) = true →
       parameters doc
       = (also_header qs <$> List.filter name_truthy ps)
         ++ (header_of <$> qs))
    ∧ (∀ field p,
         url_id_field (opts rq) = Some field →
         contains "create" (lower (schema_name rq)) = false →
         parameters (b rq true) = [p] →
         ∃ p',
           renamed_to p (Some field) p'
           ∧ parameters doc
             = (also_header qs <$> List.filter name_truthy (p' :: ps))
               ++ (header_of <$> qs)).
Proof.
  intros (kept & ps & qs & Hkept & Hps & Hqs & ->)%post_on_inr; simpl.
  apply path_parameter_policy_inr in Hkept as [Hrename Hdrop].
  exists ps, qs. split; [done|]. split; [done|].
  split; [|split]; [| |intros field p Hfield Hcreate Hbase;
                       exists (set_name p (Some field));
                       split; [by repeat split|];
                       destruct field as [|c field];
                       [ rewrite Hdrop; [done | left; by rewrite Hfield]
                       | destruct (Hrename _ Hfield ltac:(done) Hcreate)
                           as (p0 & rest & Hsame & ->);
                         rewrite Hbase in Hsame; by injection Hsame as <- <- ]].
  - intros field Hfield Hne Hcreate.
    destruct (Hrename field Hfield Hne Hcreate) as (p & rest & Hbase & ->).
    exists p, rest, (set_name p (Some field)).
    split; [done|]. split; [by repeat split|].
    simpl. unfold name_truthy at 1. simpl. by destruct field.
  - intros Hcase. by rewrite (Hdrop Hcase).
Qed.

(** C6: whatever [headers] holds, raw mappings or structured parameters,
    the finished [parameters] ends with one entry per header, in order, each
    the caller's parameter with "header" for its location; before them come
    the parameters of the call without headers, of which those that are
    themselves handed in as headers have that location too. *)
Theorem post_headers_in_header rq rs oid sm errs hd sec ap doc :
  post rq rs oid sm errs hd sec ap = inr doc →
  ∃ doc' qs hs,
    post rq rs oid sm errs None sec ap = inr doc'
    ∧ coerced (or_default hd []) qs
    ∧ parameters doc = (also_header qs <$> parameters doc') ++ hs
    ∧ Forall2 moved_to_header qs hs
    ∧ length hs = length (or_default hd [])
    ∧ Forall (λ p, in_ p = Some Locations.header) hs
    ∧ Forall (λ p, existsb (λ q, same_object q p) qs = true →
                   in_ p = Some Locations.header)
        (parameters doc).
Proof.
  intros (ps & qs & Hps & Hqs & ->)%post_inr.
  eexists _, qs, (header_of <$> qs). split.
  { apply post_inr. exists ps, []. split; [done|]. split; [constructor|].
    reflexivity. }
  simpl. rewrite also_header_nil, app_nil_r.
  split; [done|]. split; [done|]. split; [|split; [|split]].
  - apply Forall2_fmap_r, Forall_Forall2_diag, Forall_true.
    intros q. by repeat split.
  - rewrite length_fmap. symmetry. eapply Forall2_length, Hqs.
  - by apply Forall_fmap, Forall_true.
  - apply Forall_app. split.
    + apply Forall_fmap, Forall_true. intros p. simpl.
      unfold also_header.
      destruct (existsb (λ q, same_object q p) qs) eqn:Hp; [done|].
      by rewrite Hp.
    + apply Forall_fmap, Forall_true. by intros q.
Qed.

(** C7: without a [response_schema] the builder behaves as if the request
    schema had been given for it: the operation id is derived from the
    request schema, the success entry is decided by its registry name and
    refers to it, and the tags are those of the request schema. *)
Theorem post_response_schema_default rq oid sm errs hd sec ap :
  post rq None oid sm errs hd sec ap = post rq (Some rq) oid sm errs hd sec ap
  ∧ ∀ doc,
      post rq None oid sm errs hd sec ap = inr doc →
      operationId doc
      = Some (or_default oid (generate_operation_id "post" false rq))
      ∧ responses doc
        = with_errors errs
            (success_responses (schema_name rq) (schema_ref rq))
      ∧ op_tags doc
        = elements (list_to_set (default [] (tags (opts rq))
                                 ++ default [] (tags (opts rq))) : gset string).
Proof.
  split.
  - unfold post. by rewrite or_default_same.
  - by intros doc (ps & hs & _ & _ & ->)%post_inr.
Qed.

(** C8: the finished document always has a [requestBody], and its
    application/json schema is the [$ref] of the request schema, also when
    the success entry is the 204 one. *)
Theorem post_request_body rq rs oid sm errs hd sec ap doc :
  post rq rs oid sm errs hd sec ap = inr doc →
  requestBody doc = Some (json_content (schema_ref rq))
  ∧ requestBody doc ≫= body_schema_ref = Some (schema_ref rq).
Proof. by intros (ps & hs & _ & _ & ->)%post_inr. Qed.

(** C9: the finished [tags] holds, without duplicates, exactly the tags
    declared by the request schema or by the response schema; a schema
    without the option contributes none; and two calls whose schemas
    declare the same tags, in whatever order and multiplicity, yield the
    same tags up to order. *)
Theorem post_tags_union rq rs oid sm errs hd sec ap doc :
  post rq rs oid sm errs hd sec ap = inr doc →
  let declared (s : Schema) := default [] (tags (opts s)) in
  (list_to_set (op_tags doc) : gset string)
  = list_to_set (declared rq) ∪ list_to_set (declared (or_default rs rq))
  ∧ NoDup (op_tags doc)
  ∧ (∀ t, t ∈ op_tags doc
          ↔ t ∈ declared rq ∨ t ∈ declared (or_default rs rq))
  ∧ (tags (opts rq) = None → declared rq = [])
  ∧ (∀ rq2 rs2 oid2 sm2 errs2 hd2 sec2 ap2 doc2,
       post rq2 rs2 oid2 sm2 errs2 hd2 sec2 ap2 = inr doc2 →
       (∀ t, t ∈ declared rq2 ↔ t ∈ declared rq) →
       (∀ t, t ∈ declared (or_default rs2 rq2)
             ↔ t ∈ declared (or_default rs rq)) →
       op_tags doc2 ≡ₚ op_tags doc).
Proof.
  intros (ps & hs & _ & _ & ->)%post_inr declared; simpl.
  fold (declared rq) (declared (or_default rs rq)).
  split; [|split; [|split; [|split]]].
  - rewrite list_to_set_elements_L. apply list_to_set_app_L.
  - apply NoDup_elements.
  - intros t. rewrite elem_of_elements, elem_of_list_to_set.
    apply elem_of_app.
  - intros Hnone. unfold declared. by rewrite Hnone.
  - intros rq2 rs2 oid2 sm2 errs2 hd2 sec2 ap2 doc2
      (ps2 & hs2 & _ & _ & ->)%post_inr Hrq Hrs; simpl.
    fold (declared rq2) (declared (or_default rs2 rq2)).
    apply NoDup_Permutation; [apply NoDup_elements..|].
    intros t. rewrite !elem_of_elements, !elem_of_list_to_set, !elem_of_app.
    by rewrite Hrq, Hrs.
Qed.

(** C10: the defaults are triggered by falsiness.  An empty [operation_id]
    is treated like an omitted one and replaced by the generated id; a
    falsy [response_schema] is replaced by the request schema. *)
Theorem post_defaults_on_falsy rq rs oid sm errs hd sec ap :
  post rq rs (Some EmptyString) sm errs hd sec ap = post rq rs None sm errs hd sec ap
  ∧ (truthy oid = false →
     post rq rs oid sm errs hd sec ap = post rq rs None sm errs hd sec ap
     ∧ ∀ doc, post rq rs oid sm errs hd sec ap = inr doc →
              operationId doc
              = Some (generate_operation_id "post" false (or_default rs rq)))
  ∧ (truthy rs = false →
     post rq rs oid sm errs hd sec ap = post rq (Some rq) oid sm errs hd sec ap
     ∧ post rq rs oid sm errs hd sec ap = post rq None oid sm errs hd sec ap).
Proof.
  split; [done|]. split.
  - intros Hoid. split.
    + unfold post. by rewrite (or_default_falsy oid).
    + intros doc (ps & hs & _ & _ & ->)%post_inr; simpl.
      by rewrite (or_default_falsy oid).
  - intros Hrs. unfold post.
    by rewrite (or_default_falsy rs), or_default_same.
Qed.

End post_properties.


(** * The builder at concrete inputs *)

(** C1 fails as stated: with [errors = {201: "Book stored"}] the entry at
    "201" is the caller's description and carries no body schema. *)
Lemma post_success_response_overridden :
  ∃ doc,
    Sample.post Sample.BookSchema None None None
      (Some {[ 201%Z := "Book stored" ]}) None Securities.access_token None
    = inr doc
    ∧ ¬ success_entry_by_name (Sample.schema_name Sample.BookSchema)
          (Sample.schema_ref Sample.BookSchema) doc.
Proof.
  eexists. split; [run|].
  vm_compute. intros (entry & [= <-] & Href). discriminate Href.
Qed.

Lemma post_success_response_witness :
  ∃ doc,
    Sample.post Sample.BookSchema (Some Sample.BookDeletedSchema) None None
      (Some Sample.book_errors) None Securities.no_token None
    = inr doc
    ∧ responses doc !! "204"
      = Some (description_entry "Resource was deleted")
    ∧ (responses doc !! "204") ≫= body_schema_ref = None.
Proof.
  assert (∃ doc,
            Sample.post Sample.BookSchema (Some Sample.BookDeletedSchema) None
              None (Some Sample.book_errors) None Securities.no_token None
            = inr doc) as [doc Hdoc] by (eexists; run).
  exists doc. split; [exact Hdoc|].
  exact (post_success_response _ _ _ _ _ _ _ _ _ _ _ _ doc Hdoc).
Defined.

(** C2 fails as stated: a header with an empty name is appended after the
    filter and stays in the finished document. *)
Lemma post_unnamed_header_kept :
  ∃ doc,
    Sample.post Sample.BookSchema None None None None
      (Some [Structured Sample.empty_name]) Securities.access_token None
    = inr doc
    ∧ ¬ names_all_truthy doc.
Proof.
  eexists. split; [run|].
  unfold names_all_truthy; simpl. intros Hall.
  apply Forall_cons_1 in Hall as [_ Hheader].
  apply Forall_cons_1 in Hheader as [Hname _]. discriminate Hname.
Qed.

Lemma post_parameters_named_witness :
  ∃ doc,
    Sample.post Sample.BookSchema None None None None
      (Some [Sample.x_foo; Structured Sample.page]) Securities.access_token
      (Some [Sample.zomg; Structured Sample.unnamed; Structured Sample.page])
    = inr doc
    ∧ ∃ ps qs pre hs,
        coerced Sample.ParameterObject_of
          [Sample.zomg; Structured Sample.unnamed; Structured Sample.page] ps
        ∧ coerced Sample.ParameterObject_of
            [Sample.x_foo; Structured Sample.page] qs
        ∧ parameters doc = pre ++ hs
        ∧ pre = also_header qs
                <$> List.filter name_truthy
                      (kept_path_parameters "BookSchema" Sample.BookSchema
                       ++ ps)
        ∧ name <$> pre
          = name <$> List.filter name_truthy
                       (kept_path_parameters "BookSchema" Sample.BookSchema
                        ++ ps)
        ∧ Forall (λ p, name_truthy p = true) pre
        ∧ Forall2 moved_to_header qs hs
        ∧ Sample.post Sample.BookSchema None None None None None
            Securities.access_token
            (Some [Sample.zomg; Structured Sample.unnamed;
                   Structured Sample.page])
          = inr (set_parameters doc
                   (List.filter name_truthy
                      (kept_path_parameters "BookSchema" Sample.BookSchema
                       ++ ps))).
Proof.
  assert (∃ doc,
            Sample.post Sample.BookSchema None None None None
              (Some [Sample.x_foo; Structured Sample.page])
              Securities.access_token
              (Some [Sample.zomg; Structured Sample.unnamed;
                     Structured Sample.page])
            = inr doc) as [doc Hdoc] by (eexists; run).
  exists doc. split; [exact Hdoc|].
  exact (post_parameters_named _ _ _ _ _ _ _ _ _ _ _ _ doc Hdoc).
Defined.

(** One object under both lists: it is a header parameter in both places of
    the finished document. *)
Lemma post_shared_object :
  match
    Sample.post Sample.BookSchema None None None None
      (Some [Structured Sample.page]) Securities.no_token
      (Some [Structured Sample.page])
  with
  | inr doc => (λ p, (name p, in_ p)) <$> parameters doc
  | inl _ => []
  end
  = [ (Some "id", Some Locations.path);
      (Some "page", Some Locations.header);
      (Some "page", Some Locations.header) ].
Proof. run. Qed.


Lemma post_errors_merged_witness :
  ∃ doc0,
    Sample.post Sample.BookSchema None None None None None
      Securities.no_token None
    = inr doc0
    ∧ ∃ doc,
        Sample.post Sample.BookSchema None None None
          (Some Sample.book_errors) None Securities.no_token None
        = inr doc
        ∧ doc = _update_errors doc0 (Some Sample.book_errors)
        ∧ responses doc0
          = success_responses "BookSchema" "#/components/schemas/BookSchema"
        ∧ (∀ code desc,
             Sample.book_errors !! code = Some desc →
             responses doc !! pretty code
             = Some (JDict [("description", JStr desc)]))
        ∧ (∀ k,
             (∀ code, is_Some (Sample.book_errors !! code) → pretty code ≠ k) →
             responses doc !! k = responses doc0 !! k).
Proof.
  assert (∃ doc0,
            Sample.post Sample.BookSchema None None None None None
              Securities.no_token None
            = inr doc0) as [doc0 Hdoc0] by (eexists; run).
  exists doc0. split; [exact Hdoc0|].
  exact (post_errors_merged _ _ _ _ _ _ _ _ Sample.book_errors _ _ _ doc0 Hdoc0).
Defined.

Lemma post_path_parameter_policy_witness :
  ∃ doc,
    Inputs.post Sample.BookSchema None None None None (Some [Sample.x_foo])
      Securities.no_token (Some [Sample.zomg])
    = inr doc
    ∧ ∃ ps qs p',
        coerced Sample.ParameterObject_of [Sample.zomg] ps
        ∧ coerced Sample.ParameterObject_of [Sample.x_foo] qs
        ∧ renamed_to Inputs.placeholder (Some "id") p'
        ∧ parameters doc
          = (also_header qs <$> p' :: List.filter name_truthy ps)
            ++ (header_of <$> qs).
Proof.
  assert (∃ doc,
            Inputs.post Sample.BookSchema None None None None
              (Some [Sample.x_foo]) Securities.no_token (Some [Sample.zomg])
            = inr doc) as [doc Hdoc] by (eexists; run).
  exists doc. split; [exact Hdoc|].
  destruct (post_path_parameter_policy _ _ _ _ _ _ _ _ _ _ _ _ _ doc Hdoc)
    as (ps & qs & Hps & Hqs & Hrename & _).
  destruct (Hrename "id" eq_refl ltac:(discriminate) eq_refl)
    as (p & rest & p' & Hbase & Hrenamed & Hparams).
  injection Hbase as <- <-.
  exists ps, qs, p'. repeat split; try assumption; apply Hrenamed.
Defined.

Lemma post_headers_in_header_witness :
  ∃ doc,
    Sample.post Sample.BookSchema None None None None
      (Some [Sample.x_foo; Structured Sample.page]) Securities.no_token
      (Some [Sample.zomg; Structured Sample.page])
    = inr doc
    ∧ ∃ doc' qs hs,
        Sample.post Sample.BookSchema None None None None None
          Securities.no_token (Some [Sample.zomg; Structured Sample.page])
        = inr doc'
        ∧ coerced Sample.ParameterObject_of
            [Sample.x_foo; Structured Sample.page] qs
        ∧ parameters doc = (also_header qs <$> parameters doc') ++ hs
        ∧ Forall2 moved_to_header qs hs
        ∧ length hs = 2
        ∧ Forall (λ p, in_ p = Some Locations.header) hs
        ∧ Forall (λ p, existsb (λ q, same_object q p) qs = true →
                       in_ p = Some Locations.header)
            (parameters doc).
Proof.
  assert (∃ doc,
            Sample.post Sample.BookSchema None None None None
              (Some [Sample.x_foo; Structured Sample.page])
              Securities.no_token
              (Some [Sample.zomg; Structured Sample.page])
            = inr doc) as [doc Hdoc] by (eexists; run).
  exists doc. split; [exact Hdoc|].
  exact (post_headers_in_header _ _ _ _ _ _ _ _ _ _ _ _ doc Hdoc).
Defined.

Lemma post_response_schema_default_witness :
  ∃ doc,
    Sample.post Sample.BookDeletedSchema None None None None None
      Securities.no_token None
    = inr doc
    ∧ operationId doc = Some "post_BookDeletedSchema"
    ∧ responses doc
      = {[ "204" := description_entry "Resource was deleted" ]}
    ∧ op_tags doc = elements (list_to_set ["Books"; "Books"] : gset string).
Proof.
  assert (∃ doc,
            Sample.post Sample.BookDeletedSchema None None None None None
              Securities.no_token None
            = inr doc) as [doc Hdoc] by (eexists; run).
  exists doc. split; [exact Hdoc|].
  exact (proj2 (post_response_schema_default _ _ _ _ _ _ _ _ _ _ _)
           doc Hdoc).
Defined.

Lemma post_request_body_witness :
  ∃ doc,
    Sample.post Sample.BookSchema (Some Sample.BookDeletedSchema) None None
      None None Securities.no_token None
    = inr doc
    ∧ requestBody doc
      = Some (json_content "#/components/schemas/BookSchema")
    ∧ requestBody doc ≫= body_schema_ref
      = Some "#/components/schemas/BookSchema".
Proof.
  assert (∃ doc,
            Sample.post Sample.BookSchema (Some Sample.BookDeletedSchema) None
              None None None Securities.no_token None
            = inr doc) as [doc Hdoc] by (eexists; run).
  exists doc. split; [exact Hdoc|].
  exact (post_request_body _ _ _ _ _ _ _ _ _ _ _ _ doc Hdoc).
Defined.

Lemma post_tags_union_witness :
  ∃ doc,
    Sample.post Sample.BookSchema (Some Sample.LibrarySchema) None None None
      None Securities.no_token None
    = inr doc
    ∧ (list_to_set (op_tags doc) : gset string)
      = list_to_set ["Books"] ∪ list_to_set ["Library"; "Books"; "Library"]
    ∧ NoDup (op_tags doc).
Proof.
  assert (∃ doc,
            Sample.post Sample.BookSchema (Some Sample.LibrarySchema) None None
              None None Securities.no_token None
            = inr doc) as [doc Hdoc] by (eexists; run).
  exists doc. split; [exact Hdoc|].
  destruct (post_tags_union _ _ _ _ _ _ _ _ _ _ _ _ doc Hdoc)
    as (Hunion & Hnodup & _).
  split; [exact Hunion | exact Hnodup].
Defined.

Lemma post_defaults_on_falsy_witness :
  ∃ doc,
    Sample.post Sample.BookSchema None (Some EmptyString) None None None
      Securities.no_token None
    = inr doc
    ∧ operationId doc = Some "post_BookSchema"
    ∧ Sample.post Sample.BookSchema None (Some EmptyString) None None None
        Securities.no_token None
      = Sample.post Sample.BookSchema None None None None None
          Securities.no_token None
    ∧ Sample.post Sample.BookSchema None (Some EmptyString) None None None
        Securities.no_token None
      = Sample.post Sample.BookSchema (Some Sample.BookSchema) (Some EmptyString) None
          None None Securities.no_token None.
Proof.
  assert (∃ doc,
            Sample.post Sample.BookSchema None (Some EmptyString) None None None
              Securities.no_token None
            = inr doc) as [doc Hdoc] by (eexists; run).
  exists doc. split; [exact Hdoc|].
  destruct (post_defaults_on_falsy (Schema_truthy := Sample.Schema_truthy)
              Sample.schema_name Sample.schema_ref
              Sample.generate_operation_id Sample.ParameterObject_of
              Sample.BookSchema None (Some EmptyString) None None None
              Securities.no_token None)
    as (_ & Hoid & Hrs).
  destruct (Hoid eq_refl) as [Homitted Hgenerated].
  destruct (Hrs eq_refl) as [Hrequest _].
  split; [exact (Hgenerated doc Hdoc)|].
  split; [exact Homitted | exact Hrequest].
Defined.

(** * Further properties of the builder *)

Lemma append_nil (b : string) : EmptyString +:+ b = b.
Proof. reflexivity. Qed.

Lemma append_cons (c : ascii) (a b : string) :
  String c a +:+ b = String c (a +:+ b).
Proof. reflexivity. Qed.

Lemma prefix_spec (n h : string) :
  String.prefix n h = true ↔ ∃ b, h = n +:+ b.
Proof.
  revert h. induction n as [|c n IH]; intros h.
  - destruct h; simpl; (split; [intros _; by eexists | done]).
  - setoid_rewrite append_cons. destruct h as [|c' h]; simpl.
    + split; [done | by intros (b & [=])].
    + destruct (Ascii.ascii_dec c c') as [<-|Hne].
      * rewrite IH. split; intros (b & Hb); exists b; congruence.
      * split; [done | intros (b & [= ? _]); congruence].
Qed.

Lemma contains_nil (n : string) :
  contains n EmptyString = String.prefix n EmptyString.
Proof. simpl. apply orb_false_r. Qed.

Lemma contains_cons (n : string) (c : ascii) (h : string) :
  contains n (String c h) = String.prefix n (String c h) || contains n h.
Proof. reflexivity. Qed.

Lemma contains_spec (n h : string) :
  contains n h = true ↔ ∃ a b, h = a +:+ n +:+ b.
Proof.
  induction h as [|c h IH].
  - rewrite contains_nil, prefix_spec. split.
    + intros (b & Hb). by exists EmptyString, b.
    + intros ([|c a] & b & Hab); [by exists b | discriminate Hab].
  - rewrite contains_cons, orb_true_iff, prefix_spec, IH. split.
    + intros [(b & Hb) | (a & b & Hab)].
      * by exists EmptyString, b.
      * exists (String c a), b. by rewrite append_cons, Hab.
    + intros ([|c' a] & b & Hab).
      * left. by exists b.
      * right. exists a, b. rewrite append_cons in Hab. congruence.
Qed.

Lemma lower_app (a b : string) : lower (a +:+ b) = lower a +:+ lower b.
Proof.
  induction a as [|c a IH]; [done|].
  rewrite append_cons. simpl. by rewrite IH.
Qed.

Lemma lower_split (h x y : string) :
  lower h = x +:+ y → ∃ h1 h2, h = h1 +:+ h2 ∧ lower h1 = x ∧ lower h2 = y.
Proof.
  revert h. induction x as [|c x IH]; intros h.
  - intros Hy. by exists EmptyString, h.
  - rewrite append_cons. destruct h as [|c' h]; simpl; [done|].
    intros [= Hc (h1 & h2 & -> & Hx & Hy)%IH].
    exists (String c' h1), h2. simpl. by rewrite Hc, Hx.
Qed.

(** The test [word in s.lower()] finds [word] in whatever case it is
    written in [s]. *)
Lemma contains_lower_iff (word s : string) :
  contains word (lower s) = true ↔ occurs_nocase word s.
Proof.
  rewrite contains_spec. split.
  - intros (a' & b' & (a & r & -> & _ & (w & b & -> & Hw & _)%lower_split)%lower_split).
    by exists a, w, b.
  - intros (a & w & b & -> & <-).
    exists (lower a), (lower b). by rewrite !lower_app.
Qed.

Lemma contains_lower_false_iff (word s : string) :
  contains word (lower s) = false ↔ ¬ occurs_nocase word s.
Proof.
  rewrite <- contains_lower_iff. by destruct (contains word (lower s)).
Qed.

Section post_further_properties.

Context {Schema_truthy : Truthy Schema}.
Variable schema_name : Schema → string.
Variable schema_ref : Schema → string.
Variable generate_operation_id : string → bool → Schema → string.
Variable ParameterObject_of : dict → option ParameterObject.

Abbreviation post_on b :=
  (post b schema_name schema_ref generate_operation_id ParameterObject_of).
Abbreviation post_with g :=
  (post _initial_docs schema_name schema_ref g ParameterObject_of).
Abbreviation post := (post_with generate_operation_id).
Abbreviation coerced := (coerced ParameterObject_of).
Abbreviation all_validate := (all_validate ParameterObject_of).

Lemma coerced_exists inputs :
  (∃ ps, coerced inputs ps) ↔ all_validate inputs.
Proof.
  unfold all_validate. induction inputs as [|i inputs IH].
  - split; [intros _ kw Hin; by apply elem_of_nil in Hin |].
    intros _. exists []. constructor.
  - split.
    + intros (ps & Hps) kw Hin.
      inversion Hps as [|? p ? ps' Hp Hrest]; subst.
      apply elem_of_cons in Hin as [<- | Hin].
      * simpl in Hp. by destruct (ParameterObject_of kw).
      * apply IH; eauto.
    + intros Hall.
      destruct IH as [_ (ps & Hps)].
      { intros kw Hin. apply Hall. by right. }
      destruct i as [kw | p].
      * destruct (Hall kw) as [p Hp]; [by left|].
        exists (p :: ps). constructor; [|done]. simpl. by rewrite Hp.
      * exists (p :: ps). by constructor.
Qed.

Lemma all_validate_app l1 l2 :
  all_validate (l1 ++ l2) ↔ all_validate l1 ∧ all_validate l2.
Proof.
  unfold all_validate. split.
  - intros Hall. split; intros kw Hin; apply Hall, elem_of_app; eauto.
  - intros [H1 H2] kw [Hin|Hin]%elem_of_app; eauto.
Qed.

Lemma append_parameters_inl params inputs e :
  append_parameters ParameterObject_of params inputs = inl e →
  e = ValidationError.
Proof.
  revert params. induction inputs as [|[kw|p] inputs IH]; intros params; simpl.
  - done.
  - destruct (ParameterObject_of kw); simpl; [apply IH | by intros [= <-]].
  - apply IH.
Qed.

Lemma append_headers_inl params inputs e :
  append_headers ParameterObject_of params inputs = inl e →
  e = ValidationError.
Proof.
  revert params. induction inputs as [|[kw|p] inputs IH]; intros params; simpl.
  - done.
  - destruct (ParameterObject_of kw); simpl; [apply IH | by intros [= <-]].
  - apply IH.
Qed.

Lemma bind_inl {A B} (m : result A) (k : A → result B) e :
  bind m k = inl e → m = inl e ∨ ∃ a, m = inr a ∧ k a = inl e.
Proof. destruct m as [e'|a]; simpl; [intros [= ->]; by left | eauto]. Qed.

(** X1: the builder returns a document exactly when every raw mapping among
    [additional_parameters] and [headers] passes the parameter constructor;
    when it raises, it raises the constructor's validation error. *)
Theorem post_returns_iff rq rs oid sm errs hd sec ap :
  ((∃ doc, post rq rs oid sm errs hd sec ap = inr doc)
   ↔ all_validate (or_default ap [] ++ or_default hd []))
  ∧ (∀ e, post rq rs oid sm errs hd sec ap = inl e → e = ValidationError).
Proof.
  split.
  - rewrite all_validate_app, <- !coerced_exists. split.
    + intros (doc & (ps & qs & Hps & Hqs & _)%post_inr).
      split; [by exists ps | by exists qs].
    + intros [(ps & Hps) (qs & Hqs)].
      eexists. apply post_inr. by exists ps, qs.
  - intros e. unfold post.
    destruct (truthy sm), (contains "deleted" _), (Securities.eqb sec _),
             (truthy (url_id_field _) && _); simpl.
    all: intros [H|(params & _ & [H|(hs & _ & H)]%bind_inl)]%bind_inl.
    all: first [ by apply append_parameters_inl in H
               | by apply append_headers_inl in H
               | discriminate H ].
Qed.

(** X2: a non-empty [summary] is stored as given and changes no other
    field; an empty [summary] yields the document of a call without one. *)
Theorem post_summary_frame rq rs oid sm errs hd sec ap doc :
  post rq rs oid sm errs hd sec ap = inr doc →
  ∃ doc0,
    post rq rs oid None errs hd sec ap = inr doc0
    ∧ doc = (if truthy sm then set_summary doc0 sm else doc0).
Proof.
  intros (ps & hs & Hps & Hhs & ->)%post_inr.
  eexists. split; [apply post_inr; by exists ps, hs|].
  by destruct (truthy sm).
Qed.

(** X3: a non-empty [operation_id] becomes [operationId] as it is, and the
    generator of the path manager has no part in the result. *)
Theorem post_operation_id_verbatim g rq rs (oid : string) sm errs hd sec ap :
  oid ≠ EmptyString →
  post rq rs (Some oid) sm errs hd sec ap
  = post_with g rq rs (Some oid) sm errs hd sec ap
  ∧ ∀ doc,
      post rq rs (Some oid) sm errs hd sec ap = inr doc →
      operationId doc = Some oid.
Proof.
  intros Hoid.
  assert (∀ d, or_default (Some oid) d = oid) as Hverbatim.
  { intros d. by destruct oid. }
  split.
  - unfold post. cbv zeta. by rewrite !Hverbatim.
  - intros doc (ps & hs & _ & _ & ->)%post_inr.
    cbn [operationId]. by rewrite Hverbatim.
Qed.

(** X4: the 204 entry is the success entry exactly for a response schema
    whose registry name has "deleted" in it in some mix of cases: the key
    "204" is in [responses] when the name has it or [errors] names 204, and
    the key "201" when the name has it not or [errors] names 201. *)
Theorem post_deleted_any_case rq rs oid sm errs hd sec ap doc :
  post rq rs oid sm errs hd sec ap = inr doc →
  ("204" ∈ dom (responses doc)
   ↔ occurs_nocase "deleted" (schema_name (or_default rs rq))
     ∨ is_Some (errors_get errs 204))
  ∧ ("201" ∈ dom (responses doc)
     ↔ ¬ occurs_nocase "deleted" (schema_name (or_default rs rq))
       ∨ is_Some (errors_get errs 201)).
Proof.
  intros (ps & hs & _ & _ & ->)%post_inr; simpl.
  rewrite !elem_of_dom.
  rewrite (with_errors_lookup_code errs _ 204),
          (with_errors_lookup_code errs _ 201).
  rewrite <- contains_lower_iff. unfold success_responses.
  destruct (contains "deleted" _).
  - split.
    + destruct (errors_get errs 204); [by split; eauto|].
      rewrite lookup_singleton_eq. split; eauto.
    + destruct (errors_get errs 201); [split; eauto|].
      rewrite lookup_singleton_ne by done.
      split; [by intros [? ?] | intros [? | [? ?]]; done].
  - split.
    + destruct (errors_get errs 204); [split; eauto|].
      rewrite lookup_singleton_ne by done.
      split; [by intros [? ?] | intros [? | [? ?]]; done].
    + destruct (errors_get errs 201); [split; eauto|].
      rewrite lookup_singleton_eq. split; eauto.
Qed.

(** X5: on whatever baseline, a request schema whose registry name has
    "create" in it in some mix of cases keeps nothing of the baseline's
    parameters; a schema without it that declares a non-empty
    [url_id_field] has the first parameter of the baseline, renamed to the
    field, at the head of [parameters]. *)
Theorem post_create_any_case b rq rs oid sm errs hd sec ap doc :
  post_on b rq rs oid sm errs hd sec ap = inr doc →
  ∃ ps qs,
    coerced (or_default ap []) ps
    ∧ coerced (or_default hd []) qs
    ∧ (occurs_nocase "create" (schema_name rq) →
       parameters doc
       = (also_header qs <$> List.filter name_truthy ps)
         ++ (header_of <$> qs))
    ∧ (¬ occurs_nocase "create" (schema_name rq) →
       ∀ field,
         url_id_field (opts rq) = Some field →
         field ≠ EmptyString →
         ∃ p rest p',
           parameters (b rq true) = p :: rest
           ∧ renamed_to p (Some field) p'
           ∧ parameters doc
             = (also_header qs
                <$> p' :: List.filter name_truthy
                            (setattr_name p (Some field) rest ++ ps))
               ++ (header_of <$> qs)).
Proof.
  intros (kept & ps & qs & Hkept & Hps & Hqs & ->)%post_on_inr; simpl.
  apply path_parameter_policy_inr in Hkept as [Hrename Hdrop].
  exists ps, qs. split; [done|]. split; [done|]. split.
  - intros Hcreate%contains_lower_iff. rewrite Hdrop; [done | by right].
  - intros Hnot%contains_lower_false_iff field Hfield Hne.
    destruct (Hrename field Hfield Hne Hnot) as (p & rest & Hbase & ->).
    exists p, rest, (set_name p (Some field)).
    split; [done|]. split; [by repeat split|].
    simpl. unfold name_truthy at 1. simpl. by destruct field.
Qed.

(** X6: [responses] is built anew: whatever responses the baseline holds,
    the keys of the finished [responses] are the success code and the
    decimal strings of the codes in [errors], and no others. *)
Theorem post_responses_keys b rq rs oid sm errs hd sec ap doc :
  post_on b rq rs oid sm errs hd sec ap = inr doc →
  dom (responses doc)
  = {[ success_code (schema_name (or_default rs rq)) ]}
    ∪ match errs with
      | Some e => set_map pretty (dom e)
      | None => ∅
      end.
Proof.
  intros (kept & ps & qs & _ & _ & _ & ->)%post_on_inr; simpl.
  assert (dom (success_responses (schema_name (or_default rs rq))
                 (schema_ref (or_default rs rq)))
          = ({[ success_code (schema_name (or_default rs rq)) ]} : gset string))
    as Hsuccess.
  { unfold success_responses, success_code.
    destruct (contains "deleted" _); apply dom_singleton_L. }
  destruct errs as [e|]; simpl.
  - rewrite dom_union_L, dom_kmap_L, dom_fmap_L, Hsuccess by apply _.
    apply (comm_L (∪)).
  - rewrite Hsuccess. by rewrite (right_id_L ∅ (∪)).
Qed.

(** X7: the response schema has no say in [parameters], [requestBody],
    [summary] and [security]: a call with another response schema returns
    as well and agrees on these fields. *)
Theorem post_response_schema_frame rq rs rs' oid sm errs hd sec ap doc :
  post rq rs oid sm errs hd sec ap = inr doc →
  ∃ doc',
    post rq rs' oid sm errs hd sec ap = inr doc'
    ∧ parameters doc' = parameters doc
    ∧ requestBody doc' = requestBody doc
    ∧ summary doc' = summary doc
    ∧ security doc' = security doc.
Proof.
  intros (ps & hs & Hps & Hhs & ->)%post_inr.
  eexists. split; [apply post_inr; by exists ps, hs|]. done.
Qed.

(** X8: the [security] argument decides the [security] field and nothing
    else: the document for a scheme is the document for the no-token
    sentinel with its [security] set to the one requirement of the scheme. *)
Theorem post_security_frame rq rs oid sm errs hd sec ap doc :
  post rq rs oid sm errs hd sec ap = inr doc →
  ∃ doc0,
    post rq rs oid sm errs hd Securities.no_token ap = inr doc0
    ∧ doc = (if Securities.eqb sec Securities.no_token then doc0
             else set_security doc0 (Some [ [(Securities.name sec, [])] ])).
Proof.
  intros (ps & hs & Hps & Hhs & ->)%post_inr.
  eexists. split; [apply post_inr; by exists ps, hs|].
  by destruct (Securities.eqb sec Securities.no_token).
Qed.

Lemma coerced_structured (l : list ParameterObject) :
  coerced (Structured <$> l) l.
Proof. induction l; constructor; done. Qed.

Lemma or_default_list {A} (l : list A) : or_default (Some l) [] = l.
Proof. by destruct l. Qed.

(** X9: structured parameters never go through the constructor, so a call
    with structured parameters only always returns; the additional ones with
    a non-empty name follow the kept path parameter in their order, the
    headers come last, and each entry is the caller's object as given, but
    for the location of the objects handed in as headers, which is
    "header" wherever they stand. *)
Theorem post_structured_verbatim rq rs oid sm errs sec
    (additional headers : list ParameterObject) :
  ∃ doc,
    post rq rs oid sm errs (Some (Structured <$> headers)) sec
      (Some (Structured <$> additional))
    = inr doc
    ∧ parameters doc
      = (also_header headers
         <$> List.filter name_truthy
               (kept_path_parameters (schema_name rq) rq ++ additional))
        ++ (header_of <$> headers)
    ∧ Forall2 moved_to_header headers (header_of <$> headers)
    ∧ (∀ p, existsb (λ q, same_object q p) headers = false →
            also_header headers p = p).
Proof.
  eexists. split.
  { apply post_inr. exists additional, headers.
    rewrite !or_default_list.
    by repeat (split; [apply coerced_structured|]). }
  split; [reflexivity|]. split.
  - apply Forall2_fmap_r, Forall_Forall2_diag, Forall_true.
    intros q. by repeat split.
  - intros p Hp. unfold also_header. by rewrite Hp.
Qed.

End post_further_properties.

(** * The further properties at concrete inputs *)

Lemma post_returns_iff_witness :
  all_validate Sample.ParameterObject_of [Sample.zomg; Sample.x_foo]
  ∧ Sample.post Sample.BookSchema None None None None
      (Some [Inputs.bad_location]) Securities.no_token (Some [Sample.zomg])
    = inl ValidationError.
Proof.
  split.
  - apply (proj1 (proj1 (post_returns_iff (Schema_truthy := Sample.Schema_truthy)
                           Sample.schema_name Sample.schema_ref
                           Sample.generate_operation_id
                           Sample.ParameterObject_of Sample.BookSchema None
                           None None None (Some [Sample.x_foo])
                           Securities.no_token (Some [Sample.zomg])))).
    eexists. run.
  - assert (∃ e,
              Sample.post Sample.BookSchema None None None None
                (Some [Inputs.bad_location]) Securities.no_token
                (Some [Sample.zomg])
              = inl e) as [e He] by (eexists; run).
    rewrite He. f_equal.
    exact (proj2 (post_returns_iff _ _ _ _ _ _ _ _ _ _ _ _) e He).
Defined.

Lemma post_summary_frame_witness :
  ∃ doc,
    Sample.post Sample.BookSchema None None (Some "Store a book") None None
      Securities.no_token None
    = inr doc
    ∧ ∃ doc0,
        Sample.post Sample.BookSchema None None None None None
          Securities.no_token None
        = inr doc0
        ∧ doc = set_summary doc0 (Some "Store a book").
Proof.
  assert (∃ doc,
            Sample.post Sample.BookSchema None None (Some "Store a book") None
              None Securities.no_token None
            = inr doc) as [doc Hdoc] by (eexists; run).
  exists doc. split; [exact Hdoc|].
  exact (post_summary_frame _ _ _ _ _ _ _ _ _ _ _ _ doc Hdoc).
Defined.

Lemma post_operation_id_verbatim_witness :
  ∃ doc,
    Sample.post Sample.BookSchema None (Some "storeBook") None None None
      Securities.no_token None
    = inr doc
    ∧ operationId doc = Some "storeBook".
Proof.
  assert (∃ doc,
            Sample.post Sample.BookSchema None (Some "storeBook") None None
              None Securities.no_token None
            = inr doc) as [doc Hdoc] by (eexists; run).
  exists doc. split; [exact Hdoc|].
  apply (post_operation_id_verbatim (Schema_truthy := Sample.Schema_truthy)
           Sample.schema_name Sample.schema_ref Sample.generate_operation_id
           Sample.ParameterObject_of Sample.generate_operation_id
           Sample.BookSchema None "storeBook" None None None
           Securities.no_token None); [discriminate | exact Hdoc].
Defined.

Lemma post_deleted_any_case_witness :
  ∃ doc,
    Sample.post Sample.BookSchema (Some Inputs.SoftDELETEDBookSchema) None None
      None None Securities.no_token None
    = inr doc
    ∧ "204" ∈ dom (responses doc)
    ∧ "201" ∉ dom (responses doc).
Proof.
  assert (∃ doc,
            Sample.post Sample.BookSchema (Some Inputs.SoftDELETEDBookSchema)
              None None None None Securities.no_token None
            = inr doc) as [doc Hdoc] by (eexists; run).
  exists doc. split; [exact Hdoc|].
  destruct (post_deleted_any_case _ _ _ _ _ _ _ _ _ _ _ _ doc Hdoc)
    as [H204 H201].
  assert (occurs_nocase "deleted" "SoftDELETEDBookSchema") as Hoccurs.
  { exists "Soft", "DELETED", "BookSchema". split; reflexivity. }
  split.
  - apply H204. left. exact Hoccurs.
  - intros Hin. apply H201 in Hin as [Hnot | [d Hd]].
    + exact (Hnot Hoccurs).
    + discriminate Hd.
Defined.

Lemma post_create_any_case_witness :
  ∃ doc,
    Inputs.post Inputs.BookCreatedSchema None None None None
      (Some [Sample.x_foo]) Securities.no_token (Some [Sample.zomg])
    = inr doc
    ∧ ∃ ps qs,
        coerced Sample.ParameterObject_of [Sample.zomg] ps
        ∧ coerced Sample.ParameterObject_of [Sample.x_foo] qs
        ∧ parameters doc
          = (also_header qs <$> List.filter name_truthy ps)
            ++ (header_of <$> qs).
Proof.
  assert (∃ doc,
            Inputs.post Inputs.BookCreatedSchema None None None None
              (Some [Sample.x_foo]) Securities.no_token (Some [Sample.zomg])
            = inr doc) as [doc Hdoc] by (eexists; run).
  exists doc. split; [exact Hdoc|].
  destruct (post_create_any_case _ _ _ _ _ _ _ _ _ _ _ _ _ doc Hdoc)
    as (ps & qs & Hps & Hqs & Hcreate & _).
  exists ps, qs. split; [exact Hps|]. split; [exact Hqs|].
  apply Hcreate. exists "Book", "CREATE", "DSchema". split; reflexivity.
Defined.

Lemma post_responses_keys_witness :
  ∃ doc,
    Inputs.post Sample.BookSchema None None None (Some Sample.book_errors)
      None Securities.no_token None
    = inr doc
    ∧ dom (responses doc)
      = {[ "201" ]} ∪ set_map pretty (dom Sample.book_errors).
Proof.
  assert (∃ doc,
            Inputs.post Sample.BookSchema None None None
              (Some Sample.book_errors) None Securities.no_token None
            = inr doc) as [doc Hdoc] by (eexists; run).
  exists doc. split; [exact Hdoc|].
  exact (post_responses_keys _ _ _ _ _ _ _ _ _ _ _ _ _ doc Hdoc).
Defined.

Lemma post_response_schema_frame_witness :
  ∃ doc,
    Sample.post Sample.BookSchema (Some Inputs.BookCreatedSchema) None None
      None None Securities.no_token (Some [Sample.zomg])
    = inr doc
    ∧ ∃ doc',
        Sample.post Sample.BookSchema (Some Sample.BookDeletedSchema) None
          None None None Securities.no_token (Some [Sample.zomg])
        = inr doc'
        ∧ parameters doc' = parameters doc
        ∧ requestBody doc' = requestBody doc
        ∧ summary doc' = summary doc
        ∧ security doc' = security doc.
Proof.
  assert (∃ doc,
            Sample.post Sample.BookSchema (Some Inputs.BookCreatedSchema) None
              None None None Securities.no_token (Some [Sample.zomg])
            = inr doc) as [doc Hdoc] by (eexists; run).
  exists doc. split; [exact Hdoc|].
  exact (post_response_schema_frame _ _ _ _ _ _ _ _ _ _ _ _ _ doc Hdoc).
Defined.

Lemma post_security_frame_witness :
  ∃ doc,
    Sample.post Sample.BookSchema None None None None None
      (Securities.scheme "refresh_token") None
    = inr doc
    ∧ ∃ doc0,
        Sample.post Sample.BookSchema None None None None None
          Securities.no_token None
        = inr doc0
        ∧ doc = set_security doc0 (Some [ [("refresh_token", [])] ]).
Proof.
  assert (∃ doc,
            Sample.post Sample.BookSchema None None None None None
              (Securities.scheme "refresh_token") None
            = inr doc) as [doc Hdoc] by (eexists; run).
  exists doc. split; [exact Hdoc|].
  exact (post_security_frame _ _ _ _ _ _ _ _ _ _ _ _ doc Hdoc).
Defined.


